(** * A shallow embedding of the [SSHClient] class of react-native-ssh-sftp

    The JavaScript class keeps its per-client state in plain fields
    ([_key], [_listeners], [_counters], [_activeStream], [_handlers]) and
    talks to two outside parties: the native module [RNSSHClient] (the
    protocol boundary) and a process-wide event emitter
    ([RNSSHClientEmitter] on iOS, [DeviceEventEmitter] elsewhere).

    Every asynchronous method is split in two functions: the part that runs
    when the method is called (up to the native call it issues), and the
    native completion callback, run later with the arguments the native
    side passes.  Native calls are recorded, in issue order, in a trace. *)

From Stdlib Require Import ZArith.
From stdpp Require Import base gmap strings list.

(** ** Data model *)

(** [Platform.OS]. *)
Inductive OS := OS_ios | OS_android | OS_other.

Definition OS_eq_dec (a b : OS) : {a = b} + {a <> b}.
Proof. decide equality. Defined.

(** [PtyType]. *)
Inductive PtyType := VANILLA | VT100 | VT102 | VT220 | ANSI | XTERM.

(** The error value a native callback passes (any JS value). *)
Definition error := string.

Definition NATIVE_EVENT_SHELL : string := "Shell".
Definition NATIVE_EVENT_DOWNLOAD_PROGRESS : string := "DownloadProgress".
Definition NATIVE_EVENT_UPLOAD_PROGRESS : string := "UploadProgress".

(** Calls issued to [RNSSHClient], each tagged with the client key. *)
Inductive native_call :=
  | NStartShell (key : string) (pty : PtyType)
  | NCloseShell (key : string)
  | NConnectSFTP (key : string)
  | NSftpLs (path key : string)
  | NSftpUpload (key : string)
  | NSftpUploadWithCustomName (key : string)
  | NSftpUploadBase64 (key : string)
  | NSftpDownload (key : string)
  | NSftpCancelUpload (key : string)
  | NSftpCancelDownload (key : string)
  | NDisconnectSFTP (key : string)
  | NDisconnect (key : string).

(** A live subscription of the emitter: the handle returned by
    [addListener], the event name, and the client whose bound
    [handleEvent] it delivers to. *)
Record subscription := mkSub {
  sub_id : nat;
  sub_event : string;
  sub_owner : string
}.

(** The process-wide emitter: its live subscriptions and the next handle. *)
Record emitter := mkEmitter {
  subs : list subscription;
  next_sub : nat
}.

(** The fields of one [SSHClient] instance. *)
Record SSHClient := mkClient {
  _key : string;
  _listeners : gmap string nat;
  counter_download : Z;
  counter_upload : Z;
  active_sftp : bool;
  active_shell : bool
}.

(** The client together with the platform, the emitter and the trace of
    native calls. *)
Record world := mkWorld {
  os : OS;
  client : SSHClient;
  emitter_of : emitter;
  calls : list native_call
}.

(** The settled state of a returned promise; [Pending] is a promise that
    has not settled. *)
Inductive promise (A : Type) :=
  | Resolved (a : A)
  | Rejected (e : error)
  | Pending.
Arguments Resolved {A} a.
Arguments Rejected {A} e.
Arguments Pending {A}.

(** ** Field updates *)

Definition set_client (c : SSHClient) (w : world) : world :=
  mkWorld (os w) c (emitter_of w) (calls w).

Definition set_emitter (e : emitter) (w : world) : world :=
  mkWorld (os w) (client w) e (calls w).

(** [RNSSHClient.f(...)]: append the call to the trace. *)
Definition native (c : native_call) (w : world) : world :=
  mkWorld (os w) (client w) (emitter_of w) (calls w ++ [c]).

Definition with_listeners (l : gmap string nat) (c : SSHClient) : SSHClient :=
  mkClient (_key c) l (counter_download c) (counter_upload c)
           (active_sftp c) (active_shell c).

Definition with_shell (b : bool) (c : SSHClient) : SSHClient :=
  mkClient (_key c) (_listeners c) (counter_download c) (counter_upload c)
           (active_sftp c) b.

Definition with_sftp (b : bool) (c : SSHClient) : SSHClient :=
  mkClient (_key c) (_listeners c) (counter_download c) (counter_upload c)
           b (active_shell c).

Definition with_upload (n : Z) (c : SSHClient) : SSHClient :=
  mkClient (_key c) (_listeners c) (counter_download c) n
           (active_sftp c) (active_shell c).

Definition with_download (n : Z) (c : SSHClient) : SSHClient :=
  mkClient (_key c) (_listeners c) n (counter_upload c)
           (active_sftp c) (active_shell c).

Definition key_of (w : world) : string := _key (client w).

(** The constructor: fresh fields (the [connect] call it makes is not part
    of the claims' state and is left out). *)
Definition constructed (o : OS) (key : string) : world :=
  mkWorld o (mkClient key ∅ 0%Z 0%Z false false) (mkEmitter [] 0) [].

(** ** Emitter *)

(** [listenerInterface.addListener(eventName, this.handleEvent.bind(this))]. *)
Definition addListener (name owner : string) (e : emitter) : nat * emitter :=
  (next_sub e, mkEmitter (subs e ++ [mkSub (next_sub e) name owner]) (S (next_sub e))).

(** [subscription.remove()]. *)
Definition removeSub (id : nat) (e : emitter) : emitter :=
  mkEmitter (List.filter (fun s => negb (Nat.eqb (sub_id s) id)) (subs e)) (next_sub e).

(** Live subscriptions delivering [name] to the client with key [owner]. *)
Definition live_count (name owner : string) (e : emitter) : nat :=
  length (List.filter (fun s => String.eqb (sub_event s) name && String.eqb (sub_owner s) owner)
                      (subs e)).

(** [registerNativeListener(eventName)]. *)
Definition registerNativeListener (name : string) (w : world) : world :=
  let '(id, e') := addListener name (key_of w) (emitter_of w) in
  set_emitter e' (set_client (with_listeners (<[name := id]> (_listeners (client w))) (client w)) w).

(** [unregisterNativeListener(eventName)]. *)
Definition unregisterNativeListener (name : string) (w : world) : world :=
  match _listeners (client w) !! name with
  | Some id =>
      set_emitter (removeSub id (emitter_of w))
        (set_client (with_listeners (delete name (_listeners (client w))) (client w)) w)
  | None => w
  end.

(** ** Shell *)

(** [startShell(ptyType)], up to the native call.  An active shell gives
    [Promise.resolve('')]; otherwise the [Shell] listener is registered,
    [RNSSHClient.startShell] is issued and the promise waits for it. *)
Definition startShell (pty : PtyType) (w : world) : world * promise string :=
  if active_shell (client w) then (w, Resolved ""%string)
  else
    let w1 := registerNativeListener NATIVE_EVENT_SHELL w in
    (native (NStartShell (key_of w1) pty) w1, Pending).

(** The completion callback of [RNSSHClient.startShell]: an error rejects,
    otherwise the shell flag is set and the response resolves. *)
Definition startShell_cb (err : option error) (response : string) (w : world)
  : world * promise string :=
  match err with
  | Some e => (w, Rejected e)
  | None => (set_client (with_shell true (client w)) w, Resolved response)
  end.

(** [closeShell()]. *)
Definition closeShell (w : world) : world :=
  let w1 := unregisterNativeListener NATIVE_EVENT_SHELL w in
  let w2 := native (NCloseShell (key_of w1)) w1 in
  set_client (with_shell false (client w2)) w2.

(** ** SFTP channel *)

(** [connectSFTP()], up to the native call. *)
Definition connectSFTP (w : world) : world * promise unit :=
  if active_sftp (client w) then (w, Resolved tt)
  else (native (NConnectSFTP (key_of w)) w, Pending).

(** The completion callback of [RNSSHClient.connectSFTP]: the flag is set
    and both progress listeners registered before the error is looked at. *)
Definition connectSFTP_cb (err : option error) (w : world) : world * promise unit :=
  let w1 := set_client (with_sftp true (client w)) w in
  let w2 := registerNativeListener NATIVE_EVENT_DOWNLOAD_PROGRESS w1 in
  let w3 := registerNativeListener NATIVE_EVENT_UPLOAD_PROGRESS w2 in
  match err with
  | Some e => (w3, Rejected e)
  | None => (w3, Resolved tt)
  end.

(** [disconnectSFTP()]: does nothing on iOS. *)
Definition disconnectSFTP (w : world) : world :=
  if OS_eq_dec (os w) OS_ios then w
  else
    let w1 := unregisterNativeListener NATIVE_EVENT_DOWNLOAD_PROGRESS w in
    let w2 := unregisterNativeListener NATIVE_EVENT_UPLOAD_PROGRESS w1 in
    let w3 := native (NDisconnectSFTP (key_of w2)) w2 in
    set_client (with_sftp false (client w3)) w3.

(** [disconnect()]. *)
Definition disconnect (w : world) : world :=
  let w1 := if active_shell (client w) then closeShell w else w in
  let w2 := if active_sftp (client w1) then disconnectSFTP w1 else w1 in
  native (NDisconnect (key_of w2)) w2.

(** ** Transfers *)

(** The four transfer methods: [sftpUpload], [sftpUploadWithCustomName],
    [sftpUploadBase64] and [sftpDownload]. *)
Inductive transfer := TUpload | TUploadWithCustomName | TUploadBase64 | TDownload.

Definition is_upload (t : transfer) : bool :=
  match t with TDownload => false | _ => true end.

Definition transfer_call (t : transfer) (key : string) : native_call :=
  match t with
  | TUpload => NSftpUpload key
  | TUploadWithCustomName => NSftpUploadWithCustomName key
  | TUploadBase64 => NSftpUploadBase64 key
  | TDownload => NSftpDownload key
  end.

(** The body run once [checkSFTP] has resolved: [++this._counters.upload]
    (or [.download]) and the native transfer call. *)
Definition transfer_begin (t : transfer) (w : world) : world :=
  let c := client w in
  let c' := if is_upload t then with_upload (counter_upload c + 1) c
            else with_download (counter_download c + 1) c in
  native (transfer_call t (key_of w)) (set_client c' w).

(** The native completion callback: [--this._counters.upload] (or
    [.download]) whatever the outcome, then reject or resolve. *)
Definition transfer_end (t : transfer) (err : option error) (w : world)
  : world * promise unit :=
  let c := client w in
  let c' := if is_upload t then with_upload (counter_upload c - 1) c
            else with_download (counter_download c - 1) c in
  (set_client c' w, match err with Some e => Rejected e | None => Resolved tt end).

(** [sftpCancelUpload()]. *)
Definition sftpCancelUpload (w : world) : world :=
  if Z.gtb (counter_upload (client w)) 0 then native (NSftpCancelUpload (key_of w)) w
  else w.

(** [sftpCancelDownload()]. *)
Definition sftpCancelDownload (w : world) : world :=
  if Z.gtb (counter_download (client w)) 0 then native (NSftpCancelDownload (key_of w)) w
  else w.

(** Runs of a client with transfers in flight: [pending] lists the
    transfers whose completion callback has not fired yet; each callback
    fires once, in any order, with success or failure. *)
Inductive xfer_step : world * list transfer -> world * list transfer -> Prop :=
  | xfer_begin t w pending :
      xfer_step (w, pending) (transfer_begin t w, t :: pending)
  | xfer_end t err w p1 p2 :
      xfer_step (w, p1 ++ t :: p2) (fst (transfer_end t err w), p1 ++ p2)
  | xfer_cancel_upload w pending :
      xfer_step (w, pending) (sftpCancelUpload w, pending)
  | xfer_cancel_download w pending :
      xfer_step (w, pending) (sftpCancelDownload w, pending).

Inductive xfer_steps : world * list transfer -> world * list transfer -> Prop :=
  | xfer_refl s : xfer_steps s s
  | xfer_trans s1 s2 s3 : xfer_step s1 s2 -> xfer_steps s2 s3 -> xfer_steps s1 s3.

Definition count_uploads (p : list transfer) : Z :=
  Z.of_nat (length (List.filter is_upload p)).

Definition count_downloads (p : list transfer) : Z :=
  Z.of_nat (length (List.filter (fun t => negb (is_upload t)) p)).

(** Each counter equals the number of its transfers still in flight. *)
Definition counters_match (s : world * list transfer) : Prop :=
  counter_upload (client (fst s)) = count_uploads (snd s) /\
  counter_download (client (fst s)) = count_downloads (snd s).

(** ** Directory listing *)

(** A JS string as its UTF-16 code units. *)
Definition js_string := list Z.

(** [p.replace(/[\u0000-\u001F]/g, '')]: the regex has no [u] flag, so it
    matches single code units; [g] removes every match. *)
Definition strip_control (p : js_string) : js_string :=
  List.filter (fun c => negb ((0 <=? c)%Z && (c <=? 31)%Z)) p.

Section SftpLs.

(** The decoded entry type and [JSON.parse], a builtin of the JS runtime:
    [None] is a thrown [SyntaxError]. *)
Variable entry : Type.
Variable JSON_parse : js_string -> option entry.

(** [_response.map((p) => JSON.parse(p.replace(...)))]: [None] when one of
    the [JSON.parse] calls throws, which aborts the [map]. *)
Fixpoint parse_all (raws : list js_string) : option (list entry) :=
  match raws with
  | [] => Some []
  | p :: rest =>
      match JSON_parse (strip_control p) with
      | None => None
      | Some v => match parse_all rest with
                  | None => None
                  | Some vs => Some (v :: vs)
                  end
      end
  end.

(** What the native completion callback of [sftpLs] does: the arguments
    handed to the user callback (if it is reached), and the settled state
    of the promise.  A [JSON.parse] exception is thrown out of the native
    callback itself, after the [Promise] executor has returned: neither the
    user callback nor [resolve]/[reject] runs. *)
Record ls_outcome := mkLs {
  ls_user_callback : option (option error * option (list entry));
  ls_promise : promise (option (list entry))
}.

Definition sftpLs_cb (err : option error) (_response : option (list js_string))
  : ls_outcome :=
  let settle (response : option (list entry)) :=
    mkLs (Some (err, response))
         (match err with Some e => Rejected e | None => Resolved response end) in
  match _response with
  | None => settle None
  | Some raws =>
      match parse_all raws with
      | None => mkLs None Pending
      | Some vs => settle (Some vs)
      end
  end.

End SftpLs.

Arguments parse_all {entry} JSON_parse raws.
Arguments sftpLs_cb {entry} JSON_parse err _response.

(** ** Event dispatch *)

(** A function passed to [on] as a handler.  [h_id] is the identity of
    the function object; the other fields are the own properties the engine
    gives it: [length] (the number of declared parameters) and [name], both
    non-writable, and, for a [function] expression or declaration (not an
    arrow function or a method), a writable [prototype] object. *)
Record handler := mkHandler {
  h_id : nat;
  h_length : nat;
  h_name : string;
  h_prototype : bool
}.

(** The object the native side emits. *)
Record native_event := mkEvent {
  ev_name : string;
  ev_key : string;
  ev_value : string
}.

(** The built-in methods [this._handlers] can reach through its prototype
    chain. *)
Inductive builtin :=
  | Object_ctor | Object_defineGetter | Object_defineSetter | Object_hasOwnProperty
  | Object_lookupGetter | Object_lookupSetter | Object_isPrototypeOf
  | Object_propertyIsEnumerable | Object_toString | Object_valueOf
  | Object_toLocaleString
  | Function_ctor | Function_apply | Function_bind | Function_call | Function_toString.

(** A property value: a handler, a built-in method, a non-callable object
    ([Object.prototype], a function's [prototype] object), a number, a
    string, or [undefined]. *)
Inductive js_value :=
  | VHandler (h : handler)
  | VBuiltin (b : builtin)
  | VObject
  | VNumber (n : nat)
  | VString (s : string)
  | VUndefined.

(** A property as a lookup finds it: a data property with its [writable]
    attribute, the [caller] and [arguments] accessors of
    [Function.prototype] (getter and setter both throw a [TypeError]), or
    the [__proto__] accessor of [Object.prototype]. *)
Inductive prop :=
  | PData (v : js_value) (writable : bool)
  | PThrowingAccessor
  | PProtoAccessor.

(** [this._handlers]: its own properties, all created by [on], and its
    prototype: [Object.prototype] ([None]), as [{}] is created, or the
    handler function [f] after [on('__proto__', f)]. *)
Record handlers_obj := mkHandlers {
  own : gmap string handler;
  proto : option handler
}.

(** [this._handlers = {}] in the constructor. *)
Definition empty_handlers : handlers_obj := mkHandlers ∅ None.

(** First binding of a key in an association list. *)
Fixpoint assoc {A} (k : string) (l : list (string * A)) : option A :=
  match l with
  | [] => None
  | (k', v) :: l' => if String.eqb k k' then Some v else assoc k l'
  end.

(** The methods of [Object.prototype]. *)
Definition object_prototype_methods : list (string * builtin) :=
  [("constructor", Object_ctor); ("__defineGetter__", Object_defineGetter);
   ("__defineSetter__", Object_defineSetter); ("hasOwnProperty", Object_hasOwnProperty);
   ("__lookupGetter__", Object_lookupGetter); ("__lookupSetter__", Object_lookupSetter);
   ("isPrototypeOf", Object_isPrototypeOf);
   ("propertyIsEnumerable", Object_propertyIsEnumerable);
   ("toString", Object_toString); ("valueOf", Object_valueOf);
   ("toLocaleString", Object_toLocaleString)]%string.

(** The string-keyed properties of [Object.prototype]. *)
Definition object_prototype_props : list (string * prop) :=
  ("__proto__"%string, PProtoAccessor) ::
  map (fun nb => (fst nb, PData (VBuiltin (snd nb)) true)) object_prototype_methods.

(** The string-keyed properties of [Function.prototype]. *)
Definition function_prototype_props : list (string * prop) :=
  [("length", PData (VNumber 0) false); ("name", PData (VString "") false);
   ("constructor", PData (VBuiltin Function_ctor) true);
   ("apply", PData (VBuiltin Function_apply) true);
   ("bind", PData (VBuiltin Function_bind) true);
   ("call", PData (VBuiltin Function_call) true);
   ("toString", PData (VBuiltin Function_toString) true);
   ("caller", PThrowingAccessor); ("arguments", PThrowingAccessor)]%string.

(** The own properties of a handler function. *)
Definition function_own_props (f : handler) : list (string * prop) :=
  [("length"%string, PData (VNumber (h_length f)) false);
   ("name"%string, PData (VString (h_name f)) false)] ++
  (if h_prototype f then [("prototype"%string, PData VObject true)] else []).

(** The properties [this._handlers] inherits, nearest first: those of its
    prototype object and of the objects behind it. *)
Definition inherited_props (H : handlers_obj) : list (string * prop) :=
  match proto H with
  | None => object_prototype_props
  | Some f => function_own_props f ++ function_prototype_props ++ object_prototype_props
  end.

(** The property the name [name] resolves to on [this._handlers]. *)
Definition find_property (H : handlers_obj) (name : string) : option prop :=
  match own H !! name with
  | Some h => Some (PData (VHandler h) true)
  | None => assoc name (inherited_props H)
  end.

(** Reading [this._handlers[name]]: a value, or a thrown exception. *)
Inductive lookup_result := Found (v : js_value) | Threw.

Definition handler_lookup (H : handlers_obj) (name : string) : lookup_result :=
  match find_property H name with
  | None => Found VUndefined
  | Some (PData v _) => Found v
  | Some PThrowingAccessor => Threw
  | Some PProtoAccessor => Found (match proto H with None => VObject | Some f => VHandler f end)
  end.

(** [ToBoolean]. *)
Definition truthy (v : js_value) : bool :=
  match v with
  | VUndefined => false
  | VNumber n => negb (Nat.eqb n 0)
  | VString s => negb (String.eqb s "")
  | _ => true
  end.

(** Result of running [handleEvent]: the log of handler invocations, each
    with its argument ([None] for a call without one), or an exception. *)
Inductive dispatch_result :=
  | Returned (log : list (handler * option string))
  | Raised.

Section EventDispatch.

(** Whether [Function(body)] accepts [body]: the [Function] constructor,
    reachable as [constructor] once the prototype is a function, parses
    its argument as a function body and throws a [SyntaxError] when it
    does not parse. *)
Variable Function_body_parses : string -> bool.

(** The call [this._handlers[name](arg)] of the value [v] found there, with
    [this._handlers], an ordinary object that is not callable, as [this].
    A handler is invoked.  [__defineGetter__] and [__defineSetter__] throw
    a [TypeError] because their second argument is missing; the methods of
    [Function.prototype] throw one because [this] is not callable;
    [Function] throws when its argument does not parse; the other methods
    of [Object.prototype] return.  [toLocaleString] calls [this.toString()]
    on [this._handlers]: [depth] bounds these nested calls ([toString]
    never resolves to [toLocaleString], so one level suffices).  Calling a
    value that is not callable throws a [TypeError]. *)
Fixpoint call_value (depth : nat) (H : handlers_obj) (v : js_value) (arg : option string)
  (log : list (handler * option string)) : dispatch_result :=
  match v with
  | VHandler h => Returned (log ++ [(h, arg)])
  | VBuiltin b =>
      match b with
      | Object_defineGetter | Object_defineSetter
      | Function_apply | Function_bind | Function_call | Function_toString => Raised
      | Function_ctor =>
          if Function_body_parses (default ""%string arg) then Returned log else Raised
      | Object_toLocaleString =>
          match depth with
          | O => Raised
          | S d =>
              match handler_lookup H "toString" with
              | Threw => Raised
              | Found u => call_value d H u None log
              end
          end
      | _ => Returned log
      end
  | _ => Raised
  end.

(** [handleEvent(event)]: the condition reads [this._handlers[event.name]]
    before it compares the keys ([&&] evaluates left to right), and the
    call reads the property again. *)
Definition handleEvent (key : string) (H : handlers_obj) (event : native_event)
  (log : list (handler * option string)) : dispatch_result :=
  match handler_lookup H (ev_name event) with
  | Threw => Raised
  | Found v =>
      if truthy v && String.eqb key (ev_key event) then
        match handler_lookup H (ev_name event) with
        | Threw => Raised
        | Found v' => call_value 1 H v' (Some (ev_value event)) log
        end
      else Returned log
  end.

End EventDispatch.

(** [on(eventName, handler)]: the assignment
    [this._handlers[eventName] = handler] in class code, which is strict.
    Where the name resolves to nothing or to a writable data property, it
    creates or updates an own property.  An inherited non-writable
    property, or the throwing [caller]/[arguments] setter, makes it throw
    ([None]).  The [__proto__] setter makes the handler the prototype of
    [this._handlers]. *)
Definition on (eventName : string) (h : handler) (H : handlers_obj) : option handlers_obj :=
  match find_property H eventName with
  | None | Some (PData _ true) => Some (mkHandlers (<[eventName := h]> (own H)) (proto H))
  | Some (PData _ false) | Some PThrowingAccessor => None
  | Some PProtoAccessor => Some (mkHandlers (own H) (Some h))
  end.

(** ** Auxiliary definitions for the statements *)

Definition is_start_shell (c : native_call) : bool :=
  match c with NStartShell _ _ => true | _ => false end.

(** [Platform.OS !== 'ios']. *)
Definition not_ios (o : OS) : bool :=
  match o with OS_ios => false | _ => true end.

(** Number of protocol-level shell opens in a trace. *)
Definition shell_starts (l : list native_call) : nat :=
  length (List.filter is_start_shell l).

(** ** Client key *)

(** The digits of [Number.prototype.toString(16)] for a non-negative
    integer, most significant first; [fuel] bounds the recursion depth. *)
Fixpoint hex_digits (fuel : nat) (n : N) : list N :=
  match fuel with
  | O => []
  | S f => if (n <? 16)%N then [n] else hex_digits f (n / 16)%N ++ [(n mod 16)%N]
  end.

Definition hex_alphabet : string := "0123456789abcdef".

Definition hex_char (d : N) : Ascii.ascii :=
  match String.get (N.to_nat d) hex_alphabet with
  | Some c => c
  | None => Ascii.ascii_of_nat 48
  end.

(** [n.toString(16)]: each division by 16 shortens [n] by four bits, so
    [N.size n + 1] steps are enough. *)
Definition toString16 (n : N) : string :=
  String.string_of_list_ascii (map hex_char (hex_digits (S (N.to_nat (N.size n))) n)).

(** [s.substring(1)]. *)
Definition substring_from_1 (s : string) : string :=
  match s with
  | EmptyString => EmptyString
  | String _ rest => rest
  end.

(** [getRandomClientKey()], given [Math.floor((1 + Math.random()) * 0x10000)].
    [Math.random()] lies in [0, 1); [1 + r] rounds to a double in [1, 2],
    so the floor lies in [65536, 131072]. *)
Definition getRandomClientKey (floor : N) : string :=
  substring_from_1 (toString16 floor).

(** [parseInt(s, 16)] restricted to strings made only of lowercase hex
    digits ([None] for any other character or the empty string): used to
    state what a key encodes. *)
Definition hex_char_value (c : Ascii.ascii) : option N :=
  let n := N.of_nat (Ascii.nat_of_ascii c) in
  if ((48 <=? n) && (n <=? 57))%N then Some (n - 48)%N
  else if ((97 <=? n) && (n <=? 102))%N then Some (n - 87)%N
  else None.

Fixpoint parse_hex_from (acc : N) (s : string) : option N :=
  match s with
  | EmptyString => Some acc
  | String c rest =>
      match hex_char_value c with
      | Some d => parse_hex_from (acc * 16 + d)%N rest
      | None => None
      end
  end.

Definition parse_hex (s : string) : option N :=
  match s with EmptyString => None | _ => parse_hex_from 0%N s end.

(** Value of a digit list, most significant first. *)
Definition digits_value (l : list N) : N :=
  fold_left (fun acc d => acc * 16 + d)%N l 0%N.

(** ** Shell and SFTP checks *)

(** [checkShell(callback)], up to the promise it waits on: an active shell
    gives [Promise.resolve('')], otherwise [startShell(PtyType.VANILLA)]
    is called (without a callback). *)
Definition checkShell (w : world) : world * promise string :=
  if active_shell (client w) then (w, Resolved ""%string)
  else startShell VANILLA w.

(** The [.then] / [.catch] that [checkShell] chains on [startShell]'s
    promise: the argument handed to the user callback by the [.catch] and
    the resulting promise.  A non-empty banner gets a trailing newline. *)
Definition checkShell_settle (p : promise string) : option error * promise string :=
  match p with
  | Resolved res => (None, Resolved (if String.eqb res "" then ""%string else (res ++ "
")%string))
  | Rejected e => (Some e, Rejected e)
  | Pending => (None, Pending)
  end.

(** [checkSFTP(callback)], up to the promise it waits on. *)
Definition checkSFTP (w : world) : world * promise unit :=
  if active_sftp (client w) then (w, Resolved tt) else connectSFTP w.

(** [p.then(() => new Promise(...))]: the body runs once [p] resolves; a
    rejection passes through. *)
Definition then_run {A} (body : world -> world * promise A) (p : promise unit) (w : world)
  : world * promise A :=
  match p with
  | Resolved _ => body w
  | Rejected e => (w, Rejected e)
  | Pending => (w, Pending)
  end.

(** The body of [sftpLs(path)] run after [checkSFTP]: the native call. *)
Definition sftpLs_body (path : string) (w : world) : world * promise (list string) :=
  (native (NSftpLs path (key_of w)) w, Pending).

(** The body of a transfer method run after [checkSFTP]. *)
Definition transfer_body (t : transfer) (w : world) : world * promise unit :=
  (transfer_begin t w, Pending).

(** Handles of the emitter are below its next handle, and every handle
    recorded in the listener table is too. *)
Definition handles_fresh (w : world) : Prop :=
  Forall (fun s => sub_id s < next_sub (emitter_of w)) (subs (emitter_of w)) /\
  map_Forall (fun _ id => id < next_sub (emitter_of w)) (_listeners (client w)).

(** ** Frame lemmas *)

Lemma register_calls name w : calls (registerNativeListener name w) = calls w.
Proof. reflexivity. Qed.

Lemma register_os name w : os (registerNativeListener name w) = os w.
Proof. reflexivity. Qed.

Lemma register_key name w : key_of (registerNativeListener name w) = key_of w.
Proof. reflexivity. Qed.

Lemma register_flags name w :
  active_shell (client (registerNativeListener name w)) = active_shell (client w) /\
  active_sftp (client (registerNativeListener name w)) = active_sftp (client w).
Proof. split; reflexivity. Qed.

Lemma unregister_calls name w : calls (unregisterNativeListener name w) = calls w.
Proof. unfold unregisterNativeListener. by destruct (_listeners (client w) !! name). Qed.

Lemma unregister_os name w : os (unregisterNativeListener name w) = os w.
Proof. unfold unregisterNativeListener. by destruct (_listeners (client w) !! name). Qed.

Lemma unregister_key name w : key_of (unregisterNativeListener name w) = key_of w.
Proof. unfold unregisterNativeListener. by destruct (_listeners (client w) !! name). Qed.

Lemma unregister_sftp name w :
  active_sftp (client (unregisterNativeListener name w)) = active_sftp (client w).
Proof. unfold unregisterNativeListener. by destruct (_listeners (client w) !! name). Qed.

Lemma unregister_spec name w :
  _listeners (client (unregisterNativeListener name w)) = delete name (_listeners (client w)) /\
  (forall s, In s (subs (emitter_of (unregisterNativeListener name w))) ->
     In s (subs (emitter_of w)) /\ _listeners (client w) !! name <> Some (sub_id s)).
Proof.
  unfold unregisterNativeListener.
  destruct (_listeners (client w) !! name) as [id|] eqn:Hid; cbn.
  - split; [done|]. intros s Hs.
    apply List.filter_In in Hs as [Hin Hf]. split; [exact Hin|].
    intros [= E]. rewrite E, Nat.eqb_refl in Hf. discriminate.
  - split; [by rewrite delete_id|]. intros s Hs. by split.
Qed.

Lemma closeShell_calls w : calls (closeShell w) = calls w ++ [NCloseShell (key_of w)].
Proof. unfold closeShell. simpl. by rewrite unregister_calls, unregister_key. Qed.

Lemma closeShell_frame w :
  os (closeShell w) = os w /\ key_of (closeShell w) = key_of w /\
  active_sftp (client (closeShell w)) = active_sftp (client w).
Proof.
  unfold closeShell. cbn.
  rewrite unregister_os. unfold key_of. cbn.
  split; [done|]. split.
  - apply unregister_key.
  - apply unregister_sftp.
Qed.

Lemma disconnectSFTP_calls w :
  calls (disconnectSFTP w) =
  calls w ++ (if OS_eq_dec (os w) OS_ios then [] else [NDisconnectSFTP (key_of w)]).
Proof.
  unfold disconnectSFTP. destruct (OS_eq_dec (os w) OS_ios).
  - by rewrite app_nil_r.
  - cbn. by rewrite !unregister_calls, !unregister_key.
Qed.

Lemma disconnectSFTP_key w : key_of (disconnectSFTP w) = key_of w.
Proof.
  unfold disconnectSFTP. destruct (OS_eq_dec (os w) OS_ios); [done|].
  unfold key_of. cbn. fold (key_of (unregisterNativeListener NATIVE_EVENT_UPLOAD_PROGRESS
    (unregisterNativeListener NATIVE_EVENT_DOWNLOAD_PROGRESS w))).
  by rewrite !unregister_key.
Qed.

(** ** Shell lifecycle *)

(** C1: on a client whose shell is active, [startShell] resolves with the
    empty string and leaves everything unchanged; in every case it issues
    one protocol-level shell open exactly when the shell flag is false. *)
Theorem startShell_open_noop (w : world) (pty : PtyType) :
  (active_shell (client w) = true -> startShell pty w = (w, Resolved ""%string)) /\
  shell_starts (calls (fst (startShell pty w))) =
    shell_starts (calls w) + (if active_shell (client w) then 0 else 1).
Proof.
  unfold startShell. destruct (active_shell (client w)) eqn:Hs.
  - split; [done | simpl; lia].
  - split; [discriminate|].
    cbn [fst calls native]. rewrite register_calls.
    unfold shell_starts. rewrite List.filter_app, length_app. reflexivity.
Qed.

(** C10: when the shell is closed and the protocol-level open fails, the
    promise rejects, the shell flag stays false, and the [Shell] listener
    registered before the native call stays in the listener table and live
    in the emitter. *)
Theorem startShell_failure_keeps_listener (w : world) (pty : PtyType)
  (e : error) (response : string) :
  active_shell (client w) = false ->
  let '(w1, p1) := startShell pty w in
  let '(w2, p2) := startShell_cb (Some e) response w1 in
  p1 = Pending /\ p2 = Rejected e /\ active_shell (client w2) = false /\
  exists id, _listeners (client w2) !! NATIVE_EVENT_SHELL = Some id /\
             In (mkSub id NATIVE_EVENT_SHELL (key_of w)) (subs (emitter_of w2)).
Proof.
  intros Hs. unfold startShell. rewrite Hs. cbn.
  split; [done|]. split; [done|]. split; [exact Hs|].
  exists (next_sub (emitter_of w)). split.
  - apply lookup_insert_eq.
  - apply in_or_app. right. left. reflexivity.
Qed.

(** A fresh Android client whose first shell open fails. *)
Lemma startShell_failure_keeps_listener_witness :
  active_shell (client (constructed OS_android "a1b2")) = false /\
  (let '(w1, p1) := startShell VANILLA (constructed OS_android "a1b2") in
   let '(w2, p2) := startShell_cb (Some "open failed"%string) ""%string w1 in
   p1 = Pending /\ p2 = Rejected "open failed"%string /\ active_shell (client w2) = false /\
   exists id, _listeners (client w2) !! NATIVE_EVENT_SHELL = Some id /\
              In (mkSub id NATIVE_EVENT_SHELL (key_of (constructed OS_android "a1b2")))
                 (subs (emitter_of w2))).
Proof.
  split; [reflexivity|].
  exact (startShell_failure_keeps_listener (constructed OS_android "a1b2") VANILLA
           "open failed"%string ""%string eq_refl).
Defined.

(** ** SFTP channel *)

(** C2: whatever client the [RNSSHClient.connectSFTP] callback runs on,
    an error still sets the SFTP flag (and registers both progress
    listeners) while the promise rejects. *)
Theorem connectSFTP_error_sets_flag (w : world) (e : error) :
  let '(w', p) := connectSFTP_cb (Some e) w in
  p = Rejected e /\ active_sftp (client w') = true.
Proof. split; reflexivity. Qed.

(** C5: [sftpCancelUpload] issues [RNSSHClient.sftpCancelUpload] exactly
    when the upload counter is positive and changes nothing else;
    [sftpCancelDownload] likewise with the download counter. *)
Theorem sftpCancel_forwards_iff_in_flight (w : world) :
  (calls (sftpCancelUpload w) =
     calls w ++ (if Z.gtb (counter_upload (client w)) 0
                 then [NSftpCancelUpload (key_of w)] else []) /\
   client (sftpCancelUpload w) = client w /\
   emitter_of (sftpCancelUpload w) = emitter_of w) /\
  (calls (sftpCancelDownload w) =
     calls w ++ (if Z.gtb (counter_download (client w)) 0
                 then [NSftpCancelDownload (key_of w)] else []) /\
   client (sftpCancelDownload w) = client w /\
   emitter_of (sftpCancelDownload w) = emitter_of w).
Proof.
  unfold sftpCancelUpload, sftpCancelDownload.
  split; [destruct (Z.gtb (counter_upload (client w)) 0)
         |destruct (Z.gtb (counter_download (client w)) 0)];
    repeat split; try reflexivity; by rewrite app_nil_r.
Qed.

(** C6 (amended): [disconnect] appends to the protocol trace, in this
    order, the shell close when the shell flag is set, the SFTP disconnect
    when the SFTP flag is set and the platform is not iOS, and then always
    the transport disconnect. *)
Theorem disconnect_call_order (w : world) :
  calls (disconnect w) =
  calls w ++ (if active_shell (client w) then [NCloseShell (key_of w)] else [])
          ++ (if active_sftp (client w) && not_ios (os w)
              then [NDisconnectSFTP (key_of w)] else [])
          ++ [NDisconnect (key_of w)].
Proof.
  unfold disconnect.
  destruct (active_shell (client w)) eqn:Hsh.
  - destruct (closeShell_frame w) as (Hos & Hk & Hsf).
    rewrite Hsf.
    destruct (active_sftp (client w)) eqn:Hsftp; cbn [calls native andb app].
    + rewrite disconnectSFTP_calls, disconnectSFTP_key, closeShell_calls, Hos, Hk.
      destruct (os w); cbn; by rewrite <- !app_assoc.
    + rewrite closeShell_calls, Hk. by rewrite <- !app_assoc.
  - destruct (active_sftp (client w)) eqn:Hsftp; cbn.
    + rewrite disconnectSFTP_calls, disconnectSFTP_key.
      destruct (os w); cbn; by rewrite <- !app_assoc.
    + reflexivity.
Qed.

(** C6: on iOS, a client with an active SFTP channel and no shell gets
    only the transport disconnect: no SFTP disconnect precedes it. *)
Lemma disconnect_ios_skips_sftp :
  let w := set_client (with_sftp true (client (constructed OS_ios "a1b2"))) (constructed OS_ios "a1b2") in
  active_sftp (client w) = true /\
  calls (disconnect w) = [NDisconnect "a1b2"] /\
  ~ In (NDisconnectSFTP "a1b2") (calls (disconnect w)).
Proof.
  cbn. split; [done|]. split; [done|]. intros [H|H]; [discriminate | exact H].
Qed.

(** C7 (amended): off iOS, [disconnectSFTP] removes from the emitter the
    two progress subscriptions recorded in the listener table, drops both
    table entries, issues the protocol-level SFTP disconnect and clears
    the SFTP flag; on iOS it changes nothing. *)
Theorem disconnectSFTP_effect (w : world) :
  (not_ios (os w) = true ->
     let w' := disconnectSFTP w in
     active_sftp (client w') = false /\
     _listeners (client w') !! NATIVE_EVENT_DOWNLOAD_PROGRESS = None /\
     _listeners (client w') !! NATIVE_EVENT_UPLOAD_PROGRESS = None /\
     (forall s, In s (subs (emitter_of w')) ->
        _listeners (client w) !! NATIVE_EVENT_DOWNLOAD_PROGRESS <> Some (sub_id s) /\
        _listeners (client w) !! NATIVE_EVENT_UPLOAD_PROGRESS <> Some (sub_id s)) /\
     calls w' = calls w ++ [NDisconnectSFTP (key_of w)]) /\
  (not_ios (os w) = false -> disconnectSFTP w = w).
Proof.
  split.
  - intros Hos. unfold disconnectSFTP.
    destruct (OS_eq_dec (os w) OS_ios) as [E|_]; [rewrite E in Hos; discriminate|].
    set (w1 := unregisterNativeListener NATIVE_EVENT_DOWNLOAD_PROGRESS w).
    set (w2 := unregisterNativeListener NATIVE_EVENT_UPLOAD_PROGRESS w1).
    destruct (unregister_spec NATIVE_EVENT_DOWNLOAD_PROGRESS w) as [L1 S1].
    destruct (unregister_spec NATIVE_EVENT_UPLOAD_PROGRESS w1) as [L2 S2].
    fold w1 in L1, S1. fold w2 in L2, S2.
    cbn [client set_client with_sftp active_sftp with_listeners _listeners
         emitter_of native calls].
    split; [done|].
    rewrite L2, L1.
    split; [by rewrite lookup_delete_ne, lookup_delete_eq|].
    split; [by rewrite lookup_delete_eq|].
    split.
    + intros s Hs. destruct (S2 s Hs) as [Hs1 N2]. destruct (S1 s Hs1) as [_ N1].
      split; [exact N1|]. rewrite L1, lookup_delete_ne in N2 by done. exact N2.
    + unfold w2, w1. by rewrite !unregister_calls, !unregister_key.
  - intros Hos. unfold disconnectSFTP.
    destruct (OS_eq_dec (os w) OS_ios) as [|E]; [done|].
    destruct (os w); done.
Qed.

(** C7: on iOS, [disconnectSFTP] on a client with an active SFTP channel
    leaves the flag set and issues no protocol call. *)
Lemma disconnectSFTP_ios_noop :
  let w := set_client (with_sftp true (client (constructed OS_ios "a1b2"))) (constructed OS_ios "a1b2") in
  active_sftp (client (disconnectSFTP w)) = true /\ calls (disconnectSFTP w) = [].
Proof. split; reflexivity. Qed.

(** ** Native listeners *)

(** [registerNativeListener] neither checks for nor removes an earlier
    subscription: each call adds one live emitter subscription for the
    name, keeps every earlier one live, and overwrites the table entry
    with the new handle. *)
Theorem registerNativeListener_adds (name : string) (w : world) :
  live_count name (key_of w) (emitter_of (registerNativeListener name w)) =
    S (live_count name (key_of w) (emitter_of w)) /\
  _listeners (client (registerNativeListener name w)) !! name = Some (next_sub (emitter_of w)) /\
  (forall s, In s (subs (emitter_of w)) -> In s (subs (emitter_of (registerNativeListener name w)))).
Proof.
  unfold registerNativeListener, addListener, live_count. cbn.
  split; [|split].
  - rewrite List.filter_app, length_app. cbn.
    rewrite !String.eqb_refl. cbn. lia.
  - apply lookup_insert_eq.
  - intros s Hs. apply in_or_app. by left.
Qed.

(** C3 (code bug): a client whose shell open failed and that calls
    [startShell] again ends with two live [Shell] subscriptions, one more
    than before each attempt; the first stays live, while the listener
    table records only the second, so [closeShell] can no longer remove
    the first. *)
Theorem startShell_retry_duplicates_listener (w : world) (pty pty' : PtyType)
  (e : error) (response : string) :
  active_shell (client w) = false ->
  let w1 := fst (startShell pty w) in
  let w2 := fst (startShell_cb (Some e) response w1) in
  let w3 := fst (startShell pty' w2) in
  live_count NATIVE_EVENT_SHELL (key_of w) (emitter_of w3) =
    live_count NATIVE_EVENT_SHELL (key_of w) (emitter_of w) + 2 /\
  In (mkSub (next_sub (emitter_of w)) NATIVE_EVENT_SHELL (key_of w)) (subs (emitter_of w3)) /\
  _listeners (client w3) !! NATIVE_EVENT_SHELL = Some (S (next_sub (emitter_of w))).
Proof.
  intros Hs. cbn zeta.
  set (r1 := registerNativeListener NATIVE_EVENT_SHELL w).
  assert (S1 : startShell pty w = (native (NStartShell (key_of r1) pty) r1, Pending))
    by (unfold startShell; rewrite Hs; reflexivity).
  rewrite S1. cbn [fst startShell_cb].
  set (w1 := native (NStartShell (key_of r1) pty) r1).
  assert (Hs1 : active_shell (client w1) = false)
    by (unfold w1, r1; cbn [native client]; rewrite (proj1 (register_flags _ _)); exact Hs).
  set (r2 := registerNativeListener NATIVE_EVENT_SHELL w1).
  assert (S2 : startShell pty' w1 = (native (NStartShell (key_of r2) pty') r2, Pending))
    by (unfold startShell; rewrite Hs1; reflexivity).
  rewrite S2. cbn [fst emitter_of client native].
  assert (K : key_of w1 = key_of w) by exact (register_key NATIVE_EVENT_SHELL w).
  assert (E1 : emitter_of w1 = emitter_of r1) by reflexivity.
  destruct (registerNativeListener_adds NATIVE_EVENT_SHELL w) as (A1 & _ & _).
  destruct (registerNativeListener_adds NATIVE_EVENT_SHELL w1) as (A2 & T2 & I2).
  fold r1 in A1. fold r2 in A2, T2, I2. rewrite K, E1, A1 in A2.
  split; [|split].
  - rewrite A2. lia.
  - apply I2. rewrite E1. unfold r1, registerNativeListener, addListener. cbn.
    apply in_or_app. right. left. reflexivity.
  - rewrite T2, E1. reflexivity.
Qed.

(** A fresh Android client whose first shell open fails and that retries. *)
Lemma startShell_retry_duplicates_listener_witness :
  active_shell (client (constructed OS_android "a1b2")) = false /\
  live_count NATIVE_EVENT_SHELL "a1b2"
    (emitter_of (fst (startShell VANILLA (fst (startShell_cb (Some "open failed"%string) ""%string
       (fst (startShell VANILLA (constructed OS_android "a1b2")))))))) = 2.
Proof.
  split; [reflexivity|].
  exact (proj1 (startShell_retry_duplicates_listener (constructed OS_android "a1b2") VANILLA VANILLA
           "open failed"%string ""%string eq_refl)).
Defined.

(** ** Transfer counters *)

Lemma cancel_upload_client w : client (sftpCancelUpload w) = client w.
Proof. unfold sftpCancelUpload. by destruct (Z.gtb _ 0). Qed.

Lemma cancel_download_client w : client (sftpCancelDownload w) = client w.
Proof. unfold sftpCancelDownload. by destruct (Z.gtb _ 0). Qed.

Lemma count_cons t p :
  count_uploads (t :: p) = (count_uploads p + if is_upload t then 1 else 0)%Z /\
  count_downloads (t :: p) = (count_downloads p + if is_upload t then 0 else 1)%Z.
Proof. unfold count_uploads, count_downloads. destruct t; cbn; lia. Qed.

Lemma count_app p1 p2 :
  count_uploads (p1 ++ p2) = (count_uploads p1 + count_uploads p2)%Z /\
  count_downloads (p1 ++ p2) = (count_downloads p1 + count_downloads p2)%Z.
Proof. unfold count_uploads, count_downloads. rewrite !List.filter_app, !length_app. lia. Qed.

Lemma count_nonneg p : (0 <= count_uploads p)%Z /\ (0 <= count_downloads p)%Z.
Proof. unfold count_uploads, count_downloads. lia. Qed.

Lemma xfer_step_match s s' : xfer_step s s' -> counters_match s -> counters_match s'.
Proof.
  intros Hst [Hu Hd]. unfold counters_match in *.
  destruct Hst as [t w pending | t err w p1 p2 | w pending | w pending]; cbn in *.
  - destruct (count_cons t pending) as [Cu Cd]. rewrite Cu, Cd.
    unfold transfer_begin. destruct (is_upload t); cbn; lia.
  - destruct (count_app p1 (t :: p2)) as [Au Ad].
    destruct (count_app p1 p2) as [Bu Bd].
    destruct (count_cons t p2) as [Cu Cd].
    unfold transfer_end. destruct (is_upload t); cbn; lia.
  - by rewrite cancel_upload_client.
  - by rewrite cancel_download_client.
Qed.

Lemma xfer_steps_match s s' : xfer_steps s s' -> counters_match s -> counters_match s'.
Proof.
  induction 1 as [s | s1 s2 s3 H12 H23 IH]; [done|].
  intros H. apply IH. by apply (xfer_step_match s1 s2).
Qed.

(** C4: in every run of a freshly constructed client that issues
    transfers and fires each one's completion callback once, after its own
    increment, in any order and with any outcome (cancellations included),
    each counter is the number of its transfers still in flight: it is
    never negative and it is zero once all completions have fired.  No
    other method touches the counters. *)
Theorem transfer_counters_in_flight (o : OS) (key : string) (w : world)
  (pending : list transfer) :
  xfer_steps (constructed o key, []) (w, pending) ->
  counter_upload (client w) = count_uploads pending /\
  counter_download (client w) = count_downloads pending /\
  (0 <= counter_upload (client w))%Z /\ (0 <= counter_download (client w))%Z /\
  (pending = [] -> counter_upload (client w) = 0%Z /\ counter_download (client w) = 0%Z).
Proof.
  intros Hrun.
  destruct (xfer_steps_match _ _ Hrun) as [Hu Hd]; [split; reflexivity|].
  cbn in Hu, Hd. destruct (count_nonneg pending).
  split; [done|]. split; [done|]. split; [lia|]. split; [lia|].
  intros ->. split; assumption.
Qed.

(** A run with one upload that fails and one download that succeeds,
    completing in issue order. *)
Lemma transfer_counters_in_flight_witness :
  let w0 := constructed OS_android "a1b2" in
  let w1 := transfer_begin TDownload (transfer_begin TUpload w0) in
  let w2 := fst (transfer_end TUpload (Some "failed"%string) w1) in
  let w3 := fst (transfer_end TDownload None w2) in
  xfer_steps (w0, []) (w3, []) /\
  counter_upload (client w3) = 0%Z /\ counter_download (client w3) = 0%Z.
Proof.
  intros w0 w1 w2 w3.
  assert (R : xfer_steps (w0, []) (w3, [])).
  { eapply xfer_trans; [apply (xfer_begin TUpload w0 [])|].
    eapply xfer_trans; [apply (xfer_begin TDownload _ [TUpload])|].
    eapply xfer_trans; [apply (xfer_end TUpload (Some "failed"%string) _ [TDownload] [])|].
    eapply xfer_trans; [apply (xfer_end TDownload None _ [] [])|].
    apply xfer_refl. }
  split; [exact R|].
  destruct (transfer_counters_in_flight OS_android "a1b2" w3 [] R) as (_ & _ & _ & _ & Z0).
  exact (Z0 eq_refl).
Defined.

(** ** Directory listing *)

Lemma strip_control_spec (p : js_string) (c : Z) :
  In c (strip_control p) <-> In c p /\ ~ (0 <= c <= 31)%Z.
Proof.
  unfold strip_control. rewrite List.filter_In.
  split; intros [H1 H2]; split; try exact H1.
  - intros [Ha Hb]. apply Z.leb_le in Ha, Hb. rewrite Ha, Hb in H2. discriminate.
  - destruct (0 <=? c)%Z eqn:Ha, (c <=? 31)%Z eqn:Hb; try reflexivity.
    apply Z.leb_le in Ha, Hb. exfalso. apply H2. split; assumption.
Qed.

Lemma parse_all_none {entry} (JSON_parse : js_string -> option entry) raws :
  parse_all JSON_parse raws = None <->
  exists p, In p raws /\ JSON_parse (strip_control p) = None.
Proof.
  induction raws as [|p rest IH]; cbn.
  - split; [discriminate | intros (q & [] & _)].
  - destruct (JSON_parse (strip_control p)) as [v|] eqn:Hp.
    + destruct (parse_all JSON_parse rest) as [vs|] eqn:Hr.
      * split; [discriminate|]. intros (q & [<-|Hq] & Hn); [congruence|].
        assert (Hx : Some vs = None) by (apply IH; by exists q). discriminate.
      * split; [|done]. intros _.
        destruct (proj1 IH eq_refl) as (q & Hq & Hn). exists q. by split; [right|].
    + split; [|done]. intros _. exists p. by split; [left|].
Qed.

Lemma parse_all_some {entry} (JSON_parse : js_string -> option entry) raws vs :
  parse_all JSON_parse raws = Some vs ->
  map Some vs = map (fun p => JSON_parse (strip_control p)) raws.
Proof.
  revert vs. induction raws as [|p rest IH]; cbn; intros vs H.
  - by injection H as <-.
  - destruct (JSON_parse (strip_control p)) as [v|] eqn:Hp; [|discriminate].
    destruct (parse_all JSON_parse rest) as [vs'|] eqn:Hr; [|discriminate].
    injection H as <-. cbn. by rewrite (IH vs' eq_refl).
Qed.

(** C8 (code bug): [sftpLs] removes every code unit U+0000..U+001F (and
    only those) from each raw entry before [JSON.parse], and a resolved
    list holds the decoding of every raw entry, in order, never a partial
    list; but when an entry fails to decode, the exception leaves the
    native callback before the user callback, [resolve] or [reject] run,
    so the promise never settles instead of rejecting with an operation
    error. *)
Theorem sftpLs_strip_and_decode_failure (entry : Type)
  (JSON_parse : js_string -> option entry) (err : option error) (raws : list js_string) :
  (forall p c, In c (strip_control p) <-> In c p /\ ~ (0 <= c <= 31)%Z) /\
  ((exists p, In p raws /\ JSON_parse (strip_control p) = None) ->
     sftpLs_cb JSON_parse err (Some raws) = mkLs entry None Pending) /\
  (forall vs, ls_promise entry (sftpLs_cb JSON_parse err (Some raws)) = Resolved (Some vs) ->
     map Some vs = map (fun p => JSON_parse (strip_control p)) raws).
Proof.
  split; [exact strip_control_spec|]. split.
  - intros Hex. apply parse_all_none in Hex. unfold sftpLs_cb. by rewrite Hex.
  - intros vs. unfold sftpLs_cb.
    destruct (parse_all JSON_parse raws) as [vs'|] eqn:Hr; cbn.
    + destruct err; cbn; [discriminate|]. intros [= ->]. by apply parse_all_some.
    + discriminate.
Qed.

(** ** Event dispatch *)







(** C9 (code bug): on a client whose [_handlers] still has
    [Object.prototype] as its prototype, an event named [__proto__] that
    carries the client's key makes [handleEvent] raise, although no handler
    is registered under that name: [this._handlers['__proto__']] is
    [Object.prototype], truthy and not callable. *)
Theorem handleEvent_proto_raises (Function_body_parses : string -> bool) (key : string)
  (H : handlers_obj) (value : string) (log : list (handler * option string)) :
  proto H = None -> own H !! "__proto__"%string = None ->
  handleEvent Function_body_parses key H (mkEvent "__proto__" key value) log = Raised.
Proof.
  intros Hp Ho. unfold handleEvent, handler_lookup, find_property, inherited_props.
  cbn [ev_name ev_key ev_value own]. rewrite Ho, Hp. cbn. rewrite String.eqb_refl. reflexivity.
Qed.

(** A client with a [Shell] handler registered receives a [__proto__]
    event for its own key. *)
Lemma handleEvent_proto_raises_witness :
  let H := mkHandlers (<[NATIVE_EVENT_SHELL := mkHandler 1 1 "" false]> ∅) None in
  on NATIVE_EVENT_SHELL (mkHandler 1 1 "" false) empty_handlers = Some H /\
  proto H = None /\ own H !! "__proto__"%string = None /\
  handleEvent (fun _ => true) "a1b2" H (mkEvent "__proto__" "a1b2" "x") [] = Raised.
Proof.
  intros H. assert (Ho : own H !! "__proto__"%string = None) by reflexivity.
  split; [reflexivity|]. split; [reflexivity|]. split; [exact Ho|].
  exact (handleEvent_proto_raises (fun _ => true) "a1b2" H "x" [] eq_refl Ho).
Defined.

(** ** Client key *)

Lemma digits_value_acc (l : list N) (acc : N) :
  fold_left (fun acc d => acc * 16 + d)%N l acc =
  (acc * 16 ^ N.of_nat (length l) + fold_left (fun acc d => acc * 16 + d)%N l 0)%N.
Proof.
  revert acc. induction l as [|d l IH]; intros acc; cbn [fold_left length].
  - cbn. lia.
  - rewrite (IH (acc * 16 + d)%N), (IH (0 * 16 + d)%N).
    rewrite Nat2N.inj_succ, N.pow_succ_r'. lia.
Qed.

Lemma hex_digits_spec (k fuel : nat) (n : N) :
  (k < fuel)%nat -> (16 ^ N.of_nat k <= n < 16 ^ N.of_nat (S k))%N ->
  length (hex_digits fuel n) = S k /\
  Forall (fun d => d < 16)%N (hex_digits fuel n) /\
  digits_value (hex_digits fuel n) = n /\
  exists rest, hex_digits fuel n = (n / 16 ^ N.of_nat k)%N :: rest.
Proof.
  revert fuel n. induction k as [|k IH]; intros fuel n Hf Hn.
  - destruct fuel as [|f]; [lia|]. cbn in Hn |- *.
    replace (n <? 16)%N with true by (symmetry; apply N.ltb_lt; lia).
    split; [done|]. split; [constructor; [lia | constructor]|].
    split; [unfold digits_value; cbn; lia|].
    exists []. by rewrite N.div_1_r.
  - destruct fuel as [|f]; [lia|]. cbn [hex_digits].
    rewrite !Nat2N.inj_succ, !N.pow_succ_r' in Hn.
    assert (H16 : (16 ^ N.of_nat k <> 0)%N) by (apply N.pow_nonzero; lia).
    replace (n <? 16)%N with false by (symmetry; apply N.ltb_ge; nia).
    assert (Hq : (16 ^ N.of_nat k <= n / 16 < 16 ^ N.of_nat (S k))%N).
    { rewrite Nat2N.inj_succ, N.pow_succ_r'. split.
      - apply N.div_le_lower_bound; lia.
      - apply N.Div0.div_lt_upper_bound; lia. }
    destruct (IH f (n / 16)%N ltac:(lia) Hq) as (Hl & Hall & Hv & rest & Hr).
    split; [rewrite length_app; cbn; lia|].
    split; [apply Forall_app; split; [exact Hall | constructor; [apply N.mod_lt; lia | constructor]]|].
    split.
    + unfold digits_value in *. rewrite fold_left_app, Hv. cbn.
      pose proof (N.div_mod n 16 ltac:(lia)). lia.
    + rewrite Hr. exists (rest ++ [(n mod 16)%N]). cbn.
      rewrite Nat2N.inj_succ, N.pow_succ_r', N.Div0.div_div. done.
Qed.

Lemma digits_value_cons (q : N) (l : list N) :
  digits_value (q :: l) = (q * 16 ^ N.of_nat (length l) + digits_value l)%N.
Proof. unfold digits_value. cbn [fold_left]. rewrite digits_value_acc. lia. Qed.

Lemma hex_char_value_hex_char (d : N) : (d < 16)%N -> hex_char_value (hex_char d) = Some d.
Proof.
  intros Hd.
  assert (d = 0 \/ d = 1 \/ d = 2 \/ d = 3 \/ d = 4 \/ d = 5 \/ d = 6 \/ d = 7 \/
          d = 8 \/ d = 9 \/ d = 10 \/ d = 11 \/ d = 12 \/ d = 13 \/ d = 14 \/ d = 15)%N
    as Hc by lia.
  repeat destruct Hc as [-> | Hc]; try reflexivity. subst. reflexivity.
Qed.

Lemma parse_hex_from_digits (l : list N) (acc : N) :
  Forall (fun d => d < 16)%N l ->
  parse_hex_from acc (String.string_of_list_ascii (map hex_char l)) =
  Some (fold_left (fun acc d => acc * 16 + d)%N l acc).
Proof.
  revert acc. induction l as [|d l IH]; intros acc Hl; [done|].
  inversion Hl as [|? ? Hd Hrest]; subst. cbn.
  rewrite hex_char_value_hex_char by exact Hd. by apply IH.
Qed.

Lemma length_string_of_list_ascii (l : list Ascii.ascii) :
  String.length (String.string_of_list_ascii l) = length l.
Proof. induction l as [|c l IH]; cbn; [done | by rewrite IH]. Qed.

(** For every value [Math.floor((1 + Math.random()) * 0x10000)] can take,
    [getRandomClientKey] returns exactly four lowercase hex digits, which
    read back as that value modulo 65536: the key space has 65536 values,
    and the two ends of the range give the same key. *)
Theorem getRandomClientKey_four_hex_digits (floor : N) :
  (65536 <= floor <= 131072)%N ->
  String.length (getRandomClientKey floor) = 4 /\
  parse_hex (getRandomClientKey floor) = Some (floor mod 65536)%N.
Proof.
  intros Hr.
  assert (Hf : (4 < S (N.to_nat (N.size floor)))%nat).
  { pose proof (N.size_gt floor) as Hs.
    destruct (Nat.lt_ge_cases 4 (S (N.to_nat (N.size floor)))) as [H|H]; [exact H|].
    exfalso. assert (Hsz : (N.size floor <= 3)%N) by lia.
    assert (Hp : (2 ^ N.size floor <= 2 ^ 3)%N) by (apply N.pow_le_mono_r; lia).
    cbn in Hp. lia. }
  destruct (hex_digits_spec 4 _ floor Hf ltac:(cbn; lia)) as (Hl & Hall & Hv & rest & Hd).
  unfold getRandomClientKey, toString16. rewrite Hd. cbn [map String.string_of_list_ascii substring_from_1].
  rewrite Hd in Hl, Hall, Hv. cbn in Hl. injection Hl as Hl.
  inversion Hall as [|? ? _ Hrest]; subst.
  split; [by rewrite length_string_of_list_ascii, length_map|].
  rewrite digits_value_cons, Hl in Hv. change (16 ^ N.of_nat 4)%N with 65536%N in Hv.
  assert (Hval : digits_value rest = (floor mod 65536)%N).
  { pose proof (N.div_mod floor 65536 ltac:(lia)).
    pose proof (N.mod_lt floor 65536 ltac:(lia)). lia. }
  destruct rest as [|d rest']; [discriminate Hl|].
  change (parse_hex_from 0%N (String.string_of_list_ascii (map hex_char (d :: rest')))
          = Some (floor mod 65536)%N).
  rewrite (parse_hex_from_digits (d :: rest') 0%N Hrest).
  f_equal. exact Hval.
Qed.

(** A floor in the middle of the range. *)
Lemma getRandomClientKey_four_hex_digits_witness :
  (65536 <= 100000 <= 131072)%N /\
  String.length (getRandomClientKey 100000) = 4 /\
  parse_hex (getRandomClientKey 100000) = Some (100000 mod 65536)%N.
Proof.
  split; [lia|]. apply (getRandomClientKey_four_hex_digits 100000). lia.
Defined.

(** ** Emitter handles *)

Lemma filter_keep_fresh (l : list subscription) (n : nat) :
  Forall (fun s => sub_id s < n) l ->
  List.filter (fun s => negb (Nat.eqb (sub_id s) n)) l = l.
Proof.
  induction 1 as [|s l Hs _ IH]; [done|]. cbn.
  replace (Nat.eqb (sub_id s) n) with false by (symmetry; apply Nat.eqb_neq; lia).
  cbn. by rewrite IH.
Qed.

Lemma removeSub_new (l : list subscription) (n : nat) (name owner : string) :
  Forall (fun s => sub_id s < n) l ->
  List.filter (fun s => negb (Nat.eqb (sub_id s) n)) (l ++ [mkSub n name owner]) = l.
Proof.
  intros H. rewrite List.filter_app, filter_keep_fresh by exact H. cbn.
  rewrite Nat.eqb_refl. apply app_nil_r.
Qed.

Lemma unregister_keeps name w s :
  In s (subs (emitter_of w)) -> _listeners (client w) !! name <> Some (sub_id s) ->
  In s (subs (emitter_of (unregisterNativeListener name w))).
Proof.
  intros Hin Hne. unfold unregisterNativeListener.
  destruct (_listeners (client w) !! name) as [id|] eqn:Hid; [|exact Hin].
  cbn. apply List.filter_In. split; [exact Hin|].
  destruct (Nat.eqb (sub_id s) id) eqn:E; [|done].
  apply Nat.eqb_eq in E. subst. contradiction.
Qed.

Lemma unregister_shell_flag name w :
  active_shell (client (unregisterNativeListener name w)) = active_shell (client w).
Proof. unfold unregisterNativeListener. by destruct (_listeners (client w) !! name). Qed.

Lemma unregister_other_entry name name' w :
  name <> name' ->
  _listeners (client (unregisterNativeListener name w)) !! name' = _listeners (client w) !! name'.
Proof.
  intros Hne. unfold unregisterNativeListener.
  destruct (_listeners (client w) !! name); [|done]. cbn. by rewrite lookup_delete_ne.
Qed.

(** Registering a listener and unregistering it again gives back the
    emitter's subscriptions and drops the name from the listener table,
    provided the handles in use are below the emitter's next handle. *)
Theorem register_unregister_roundtrip (name : string) (w : world) :
  handles_fresh w ->
  subs (emitter_of (unregisterNativeListener name (registerNativeListener name w))) =
    subs (emitter_of w) /\
  _listeners (client (unregisterNativeListener name (registerNativeListener name w))) =
    delete name (_listeners (client w)).
Proof.
  intros [Hs _]. unfold registerNativeListener, addListener, unregisterNativeListener.
  cbn. rewrite lookup_insert_eq. cbn.
  split; [by apply removeSub_new | apply delete_insert_eq].
Qed.

Lemma register_unregister_roundtrip_witness :
  handles_fresh (constructed OS_android "a1b2") /\
  subs (emitter_of (unregisterNativeListener NATIVE_EVENT_SHELL
          (registerNativeListener NATIVE_EVENT_SHELL (constructed OS_android "a1b2")))) =
    subs (emitter_of (constructed OS_android "a1b2")) /\
  _listeners (client (unregisterNativeListener NATIVE_EVENT_SHELL
          (registerNativeListener NATIVE_EVENT_SHELL (constructed OS_android "a1b2")))) =
    delete NATIVE_EVENT_SHELL (_listeners (client (constructed OS_android "a1b2"))).
Proof.
  assert (H : handles_fresh (constructed OS_android "a1b2"))
    by (split; [constructor | apply map_Forall_empty]).
  split; [exact H|]. exact (register_unregister_roundtrip NATIVE_EVENT_SHELL _ H).
Defined.

(** ** Shell open and close *)

(** A shell that opens and is then closed gives back the emitter's
    subscriptions, leaves no [Shell] entry in the listener table, clears
    the flag, and has issued exactly the open and the close. *)
Theorem startShell_closeShell_roundtrip (w : world) (pty : PtyType) (banner : string) :
  handles_fresh w -> active_shell (client w) = false ->
  let w1 := fst (startShell pty w) in
  let w2 := fst (startShell_cb None banner w1) in
  let w3 := closeShell w2 in
  subs (emitter_of w3) = subs (emitter_of w) /\
  _listeners (client w3) !! NATIVE_EVENT_SHELL = None /\
  active_shell (client w3) = false /\
  calls w3 = calls w ++ [NStartShell (key_of w) pty; NCloseShell (key_of w)].
Proof.
  intros [Hs _] Hsh. unfold startShell. rewrite Hsh.
  unfold closeShell, unregisterNativeListener, registerNativeListener, addListener.
  cbn. rewrite lookup_insert_eq. cbn.
  split; [by apply removeSub_new|].
  split; [apply lookup_delete_eq|].
  split; [done|].
  by rewrite <- app_assoc.
Qed.

Lemma startShell_closeShell_roundtrip_witness :
  handles_fresh (constructed OS_android "a1b2") /\
  active_shell (client (constructed OS_android "a1b2")) = false /\
  subs (emitter_of (closeShell (fst (startShell_cb None "Welcome"%string
          (fst (startShell XTERM (constructed OS_android "a1b2"))))))) = [].
Proof.
  assert (H : handles_fresh (constructed OS_android "a1b2"))
    by (split; [constructor | apply map_Forall_empty]).
  split; [exact H|]. split; [reflexivity|].
  exact (proj1 (startShell_closeShell_roundtrip (constructed OS_android "a1b2") XTERM
                  "Welcome"%string H eq_refl)).
Defined.

(** When the shell open fails, a later [disconnect] does not remove the
    [Shell] subscription registered for it: [disconnect] closes the shell
    only when the flag is set, which a failed open never does. *)
Theorem failed_startShell_listener_survives_disconnect (w : world) (pty : PtyType) (e : error) :
  handles_fresh w -> active_shell (client w) = false ->
  let w1 := fst (startShell pty w) in
  let w2 := fst (startShell_cb (Some e) ""%string w1) in
  let w3 := disconnect w2 in
  In (mkSub (next_sub (emitter_of w)) NATIVE_EVENT_SHELL (key_of w)) (subs (emitter_of w3)) /\
  _listeners (client w3) !! NATIVE_EVENT_SHELL = Some (next_sub (emitter_of w)).
Proof.
  intros [Hs Hl] Hsh. cbn zeta.
  set (id0 := next_sub (emitter_of w)).
  set (w2 := fst (startShell_cb (Some e) ""%string (fst (startShell pty w)))).
  assert (E2 : w2 = native (NStartShell (key_of w) pty) (registerNativeListener NATIVE_EVENT_SHELL w))
    by (unfold w2, startShell; by rewrite Hsh).
  assert (Hin2 : In (mkSub id0 NATIVE_EVENT_SHELL (key_of w)) (subs (emitter_of w2))).
  { rewrite E2. cbn. apply in_or_app. right. by left. }
  assert (Hl2 : _listeners (client w2) !! NATIVE_EVENT_SHELL = Some id0).
  { rewrite E2. cbn. apply lookup_insert_eq. }
  assert (Hsh2 : active_shell (client w2) = false) by (rewrite E2; exact Hsh).
  assert (Hother : forall n, n <> NATIVE_EVENT_SHELL ->
            _listeners (client w2) !! n <> Some id0).
  { intros n Hn. rewrite E2. cbn. rewrite lookup_insert_ne by congruence.
    intros Hx. specialize (Hl n _ Hx). cbn in Hl. unfold id0 in Hl. lia. }
  unfold disconnect. rewrite Hsh2.
  destruct (active_sftp (client w2)); [|cbn; by split].
  unfold disconnectSFTP. destruct (OS_eq_dec (os w2) OS_ios); [cbn; by split|].
  cbn [native emitter_of set_client client with_sftp _listeners].
  split.
  - apply unregister_keeps; [apply unregister_keeps|].
    + exact Hin2.
    + apply Hother. done.
    + rewrite unregister_other_entry by done. apply Hother. done.
  - rewrite !unregister_other_entry by done. exact Hl2.
Qed.

Lemma failed_startShell_listener_survives_disconnect_witness :
  handles_fresh (constructed OS_android "a1b2") /\
  active_shell (client (constructed OS_android "a1b2")) = false /\
  In (mkSub 0 NATIVE_EVENT_SHELL "a1b2")
     (subs (emitter_of (disconnect (fst (startShell_cb (Some "refused"%string) ""%string
                  (fst (startShell VANILLA (constructed OS_android "a1b2")))))))).
Proof.
  assert (H : handles_fresh (constructed OS_android "a1b2"))
    by (split; [constructor | apply map_Forall_empty]).
  split; [exact H|]. split; [reflexivity|].
  exact (proj1 (failed_startShell_listener_survives_disconnect
                  (constructed OS_android "a1b2") VANILLA "refused"%string H eq_refl)).
Defined.

(** After [disconnect] the shell flag is always false; the SFTP flag is
    false too off iOS, and unchanged on iOS. *)
Theorem disconnect_flags (w : world) :
  active_shell (client (disconnect w)) = false /\
  active_sftp (client (disconnect w)) =
    (if not_ios (os w) then false else active_sftp (client w)).
Proof.
  unfold disconnect.
  set (w1 := if active_shell (client w) then closeShell w else w).
  assert (Hsh1 : active_shell (client w1) = false).
  { unfold w1. destruct (active_shell (client w)) eqn:E; [reflexivity | exact E]. }
  assert (Hos1 : os w1 = os w).
  { unfold w1. destruct (active_shell (client w)); [apply closeShell_frame | done]. }
  assert (Hsf1 : active_sftp (client w1) = active_sftp (client w)).
  { unfold w1. destruct (active_shell (client w)); [apply closeShell_frame | done]. }
  cbn [native client].
  destruct (active_sftp (client w1)) eqn:Hs.
  - unfold disconnectSFTP. rewrite Hos1.
    destruct (OS_eq_dec (os w) OS_ios) as [E|E].
    + rewrite E. cbn. split; [exact Hsh1 | rewrite <- Hsf1; exact Hs].
    + cbn. rewrite !unregister_shell_flag. split; [exact Hsh1|].
      by destruct (os w).
  - split; [exact Hsh1|]. rewrite <- Hsf1, Hs. by destruct (not_ios (os w)).
Qed.

(** ** Shell and SFTP checks *)

(** [checkShell] on a closed shell issues one shell open with the
    [vanilla] terminal type and waits; once the open succeeds the shell
    flag is set and the promise resolves with the banner followed by a
    newline, or with [''] for an empty banner; when it fails the error is
    handed to the user callback and the promise rejects with it. *)
Theorem checkShell_closed (w : world) (banner : string) (e : error) :
  active_shell (client w) = false ->
  let '(w1, p1) := checkShell w in
  p1 = Pending /\
  calls w1 = calls w ++ [NStartShell (key_of w) VANILLA] /\
  active_shell (client (fst (startShell_cb None banner w1))) = true /\
  checkShell_settle (snd (startShell_cb None banner w1)) =
    (None, Resolved (if String.eqb banner "" then ""%string else (banner ++ "
")%string)) /\
  checkShell_settle (snd (startShell_cb (Some e) banner w1)) = (Some e, Rejected e).
Proof.
  intros Hsh. unfold checkShell, startShell. rewrite Hsh. cbn.
  repeat split; reflexivity.
Qed.

Lemma checkShell_closed_witness :
  active_shell (client (constructed OS_ios "a1b2")) = false /\
  checkShell_settle (snd (startShell_cb None "Last login"%string
      (fst (checkShell (constructed OS_ios "a1b2"))))) =
    (None, Resolved ("Last login" ++ "
")%string).
Proof.
  split; [reflexivity|].
  pose proof (checkShell_closed (constructed OS_ios "a1b2") "Last login"%string
                "x"%string eq_refl) as H.
  destruct (checkShell (constructed OS_ios "a1b2")) as [w1 p1] eqn:E.
  destruct H as (_ & _ & _ & H & _). exact H.
Defined.

(** [sftpLs] on a client without an active SFTP channel first issues the
    SFTP connect and issues the listing only after the connect callback
    succeeds.  When the connect fails the listing rejects with that error
    without being issued, and because the failed connect still set the
    flag, the next [sftpLs] issues its listing at once, with no new
    connect. *)
Theorem sftpLs_connects_first (w : world) (path : string) (e : error) :
  active_sftp (client w) = false ->
  let '(w1, p1) := checkSFTP w in
  let '(w2, p2) := then_run (sftpLs_body path) p1 w1 in
  p2 = Pending /\ calls w2 = calls w ++ [NConnectSFTP (key_of w)] /\
  (let '(w3, q) := connectSFTP_cb None w2 in
   calls (fst (then_run (sftpLs_body path) q w3)) =
     calls w ++ [NConnectSFTP (key_of w); NSftpLs path (key_of w)]) /\
  (let '(w3, q) := connectSFTP_cb (Some e) w2 in
   then_run (sftpLs_body path) q w3 = (w3, Rejected e) /\
   calls w3 = calls w ++ [NConnectSFTP (key_of w)] /\
   calls (fst (then_run (sftpLs_body path) (snd (checkSFTP w3)) (fst (checkSFTP w3)))) =
     calls w ++ [NConnectSFTP (key_of w); NSftpLs path (key_of w)]).
Proof.
  intros Hs. unfold checkSFTP, connectSFTP. rewrite Hs. cbn.
  split; [done|]. split; [done|]. split.
  - by rewrite <- app_assoc.
  - split; [done|]. split; [done|]. by rewrite <- app_assoc.
Qed.

Lemma sftpLs_connects_first_witness :
  active_sftp (client (constructed OS_android "a1b2")) = false /\
  calls (fst (then_run (sftpLs_body "/tmp"%string)
     (snd (connectSFTP_cb None (fst (checkSFTP (constructed OS_android "a1b2")))))
     (fst (connectSFTP_cb None (fst (checkSFTP (constructed OS_android "a1b2"))))))) =
    [NConnectSFTP "a1b2"; NSftpLs "/tmp" "a1b2"].
Proof.
  split; [reflexivity|].
  pose proof (sftpLs_connects_first (constructed OS_android "a1b2") "/tmp"%string
                "x"%string eq_refl) as H.
  cbn in H. destruct H as (_ & _ & H & _). exact H.
Defined.

(** A transfer method whose SFTP check fails rejects with the connect
    error and leaves both counters as they were, without issuing the
    transfer; on a client with an active SFTP channel it increments its
    counter and issues the transfer at once. *)
Theorem transfer_after_check (t : transfer) (w : world) (e : error) :
  (active_sftp (client w) = false ->
   let w2 := fst (connectSFTP_cb (Some e) (fst (checkSFTP w))) in
   let '(w3, q) := then_run (transfer_body t) (snd (connectSFTP_cb (Some e) (fst (checkSFTP w)))) w2 in
   q = Rejected e /\
   counter_upload (client w3) = counter_upload (client w) /\
   counter_download (client w3) = counter_download (client w) /\
   calls w3 = calls w ++ [NConnectSFTP (key_of w)]) /\
  (active_sftp (client w) = true ->
   let '(w1, q) := then_run (transfer_body t) (snd (checkSFTP w)) (fst (checkSFTP w)) in
   q = Pending /\
   counter_upload (client w1) = (counter_upload (client w) + if is_upload t then 1 else 0)%Z /\
   counter_download (client w1) = (counter_download (client w) + if is_upload t then 0 else 1)%Z /\
   calls w1 = calls w ++ [transfer_call t (key_of w)]).
Proof.
  split; intros Hs; unfold checkSFTP, connectSFTP; rewrite Hs; cbn.
  - repeat split; reflexivity.
  - unfold transfer_begin. destruct (is_upload t); cbn; repeat split; lia.
Qed.

Lemma transfer_after_check_witness :
  active_sftp (client (constructed OS_android "a1b2")) = false /\
  snd (then_run (transfer_body TUpload)
         (snd (connectSFTP_cb (Some "no sftp"%string) (fst (checkSFTP (constructed OS_android "a1b2")))))
         (fst (connectSFTP_cb (Some "no sftp"%string) (fst (checkSFTP (constructed OS_android "a1b2"))))))
    = Rejected "no sftp"%string.
Proof.
  split; [reflexivity|].
  pose proof (proj1 (transfer_after_check TUpload (constructed OS_android "a1b2") "no sftp"%string)
                eq_refl) as H.
  cbn in H |- *. exact (proj1 H).
Defined.

(** ** Event handlers *)







(** ** Cancellation after the transfers *)

(** Once every transfer issued on a freshly constructed client has
    completed, [sftpCancelUpload] and [sftpCancelDownload] do nothing. *)
Theorem cancel_after_all_complete (o : OS) (key : string) (w : world) :
  xfer_steps (constructed o key, []) (w, []) ->
  sftpCancelUpload w = w /\ sftpCancelDownload w = w.
Proof.
  intros Hrun.
  destruct (xfer_steps_match _ _ Hrun) as [Hu Hd]; [split; reflexivity|].
  cbn in Hu, Hd. unfold sftpCancelUpload, sftpCancelDownload.
  rewrite Hu, Hd. split; reflexivity.
Qed.

Lemma cancel_after_all_complete_witness :
  xfer_steps (constructed OS_android "a1b2", [])
             (fst (transfer_end TDownload None (transfer_begin TDownload (constructed OS_android "a1b2"))), []) /\
  sftpCancelDownload (fst (transfer_end TDownload None (transfer_begin TDownload (constructed OS_android "a1b2")))) =
    fst (transfer_end TDownload None (transfer_begin TDownload (constructed OS_android "a1b2"))).
Proof.
  assert (R : xfer_steps (constructed OS_android "a1b2", [])
             (fst (transfer_end TDownload None (transfer_begin TDownload (constructed OS_android "a1b2"))), [])).
  { eapply xfer_trans; [apply (xfer_begin TDownload _ [])|].
    eapply xfer_trans; [apply (xfer_end TDownload None _ [] [])|].
    apply xfer_refl. }
  split; [exact R|]. exact (proj2 (cancel_after_all_complete OS_android "a1b2" _ R)).
Defined.
